(** * Shallow embedding of the Redis fixed-window rate limiter of [app.py]

    The module [app.py] defines:
    - [RateLimit]: a window tracker whose constructor computes the window end
      ([reset]), the counter key, and runs one Redis pipeline (INCR, EXPIREAT);
    - [on_over_limit]: the default rejection handler (JSON body, status 429);
    - [ratelimit]: the decorator factory wrapping a Flask view;
    - [inject_x_rate_headers]: the [after_request] hook adding the
      [X-RateLimit-*] headers.

    Python effects are modelled with an explicit world (the Redis server, the
    clock, the current Flask request, the per-request [g] object, and a counter
    of invocations of the wrapped view) threaded through a state and exception
    monad.  Python integers are [Z]; [//] is floor division ([Z.div]) raising
    [ZeroDivisionError] on a zero divisor; [str] of an int is [py_str]. *)

From Stdlib Require Import ZArith Ascii String List Lia DecimalZ.
From stdpp Require Import base gmap strings.

Local Open Scope Z_scope.
Local Set Warnings "-register-all".

(** ** Python [str] on integers (decimal, no leading zeros, [-] sign) *)

Fixpoint str_of_uint (d : Decimal.uint) : string :=
  match d with
  | Decimal.Nil => EmptyString
  | Decimal.D0 d => String "0"%char (str_of_uint d)
  | Decimal.D1 d => String "1"%char (str_of_uint d)
  | Decimal.D2 d => String "2"%char (str_of_uint d)
  | Decimal.D3 d => String "3"%char (str_of_uint d)
  | Decimal.D4 d => String "4"%char (str_of_uint d)
  | Decimal.D5 d => String "5"%char (str_of_uint d)
  | Decimal.D6 d => String "6"%char (str_of_uint d)
  | Decimal.D7 d => String "7"%char (str_of_uint d)
  | Decimal.D8 d => String "8"%char (str_of_uint d)
  | Decimal.D9 d => String "9"%char (str_of_uint d)
  end.

Definition py_str (z : Z) : string :=
  match Z.to_int z with
  | Decimal.Pos d => str_of_uint d
  | Decimal.Neg d => String "-"%char (str_of_uint d)
  end.

(** ** Python exceptions, results, Flask responses *)

Inductive exn : Type :=
| ZeroDivisionError
| ConnectionError
| IndexError.

Inductive result (A : Type) : Type :=
| Ok (a : A)
| Raise (e : exn).
Arguments Ok {A} a.
Arguments Raise {A} e.

(** JSON values as produced by [jsonify] (only what the module builds). *)
Inductive json : Type :=
| JStr (s : string)
| JObj (fields : list (string * json)).

(** A Flask response: body, status code and the headers added on top of the
    defaults Flask sets itself. *)
Record response : Type := mk_response {
  body : json;
  status : Z;
  headers : list (string * string)
}.

(** ** The Redis commands of the pipeline *)

Inductive cmd : Type :=
| Incr (k : string)
| ExpireAt (k : string) (t : Z).

(** A key's value as Redis sees it at time [now] (in seconds, the clock the
    application reads too): a key whose expiry deadline is at or before [now]
    has expired and no longer exists. *)
Definition live_value (now : Z) (cnt exp : gmap string Z) (k : string) : option Z :=
  match cnt !! k with
  | Some c =>
      match exp !! k with
      | Some t => if t <=? now then None else Some c
      | None => Some c
      end
  | None => None
  end.

(** The commands run against the server at time [now]. INCR of a missing or
    expired key creates it at 1 with no expiry; INCR of a live key adds 1 and
    keeps its expiry; both return the new value. EXPIREAT of a live key
    returns 1 and sets its absolute expiry, except that a deadline at or
    before [now] deletes the key at once; EXPIREAT of a missing or expired key
    returns 0. An expired key met by a command is removed. *)
Fixpoint run_cmds (now : Z) (cs : list cmd) (cnt exp : gmap string Z)
  : list Z * gmap string Z * gmap string Z :=
  match cs with
  | [] => ([], cnt, exp)
  | Incr k :: cs' =>
      match live_value now cnt exp k with
      | Some c =>
          let '(rs, c', e') := run_cmds now cs' (<[k:=c + 1]> cnt) exp in
          (c + 1 :: rs, c', e')
      | None =>
          let '(rs, c', e') := run_cmds now cs' (<[k:=1]> cnt) (delete k exp) in
          (1 :: rs, c', e')
      end
  | ExpireAt k t :: cs' =>
      match live_value now cnt exp k with
      | Some _ =>
          if t <=? now then
            let '(rs, c', e') := run_cmds now cs' (delete k cnt) (delete k exp) in
            (1 :: rs, c', e')
          else
            let '(rs, c', e') := run_cmds now cs' cnt (<[k:=t]> exp) in
            (1 :: rs, c', e')
      | None =>
          let '(rs, c', e') := run_cmds now cs' (delete k cnt) (delete k exp) in
          (0 :: rs, c', e')
      end
  end.

(** ** [class RateLimit] *)

Record RateLimit : Type := mk_RateLimit {
  reset : Z;
  key : string;
  limit : Z;
  per : Z;
  send_x_headers : bool;
  current : Z
}.

(** [expiration_window = 10] *)
Definition expiration_window : Z := 10.

(** [remaining = property(lambda x: x.limit - x.current)] *)
Definition remaining (x : RateLimit) : Z := limit x - current x.

(** [over_limit = property(lambda x: x.current >= x.limit)] *)
Definition over_limit (x : RateLimit) : bool := limit x <=? current x.

(** ** The world threaded through a request *)

Record request : Type := mk_request {
  endpoint : string;
  remote_addr : string
}.

Record world : Type := mk_world {
  w_clock : Z;                        (** [int(time.time())] *)
  w_req : request;                    (** Flask's [request] *)
  w_counters : gmap string Z;         (** Redis string keys holding integers *)
  w_expiry : gmap string Z;           (** Redis absolute expiries *)
  w_store_up : bool;                  (** whether the Redis round trip succeeds *)
  w_batches : list (list cmd);        (** pipelines submitted to Redis, in order *)
  w_g : option RateLimit;             (** [g._view_rate_limit] *)
  w_f_calls : nat                     (** invocations of the wrapped view *)
}.

Definition set_g (r : option RateLimit) (w : world) : world :=
  mk_world (w_clock w) (w_req w) (w_counters w) (w_expiry w) (w_store_up w)
    (w_batches w) r (w_f_calls w).

Definition set_store (c e : gmap string Z) (w : world) : world :=
  mk_world (w_clock w) (w_req w) c e (w_store_up w)
    (w_batches w) (w_g w) (w_f_calls w).

Definition log_batch (p : list cmd) (w : world) : world :=
  mk_world (w_clock w) (w_req w) (w_counters w) (w_expiry w) (w_store_up w)
    (w_batches w ++ [p]) (w_g w) (w_f_calls w).

Definition bump_f_calls (w : world) : world :=
  mk_world (w_clock w) (w_req w) (w_counters w) (w_expiry w) (w_store_up w)
    (w_batches w) (w_g w) (S (w_f_calls w)).

(** ** State and exception monad *)

Definition M (A : Type) : Type := world -> result A * world.

Definition ret {A} (a : A) : M A := fun w => (Ok a, w).

Definition rbind {A B} (m : M A) (k : A -> M B) : M B :=
  fun w => match m w with
           | (Ok a, w') => k a w'
           | (Raise e, w') => (Raise e, w')
           end.

Notation "'let*' x ':=' m 'in' k" := (rbind m (fun x => k))
  (at level 200, x ident, m at level 100, k at level 200).

Definition raise {A} (e : exn) : M A := fun w => (Raise e, w).

Definition modify (f : world -> world) : M unit := fun w => (Ok tt, f w).

Definition time_now : M Z := fun w => (Ok (w_clock w), w).

(** Python's [a // b]. *)
Definition py_floordiv (a b : Z) : M Z :=
  if b =? 0 then raise ZeroDivisionError else ret (a / b).

(** [results[0]] *)
Definition py_index0 (l : list Z) : M Z :=
  match l with
  | x :: _ => ret x
  | [] => raise IndexError
  end.

(** ** The Redis pipeline: [p = redis.pipeline(); p.incr(..); p.expireat(..)] *)

Definition pipeline : Type := list cmd.

Definition p_incr (p : pipeline) (k : string) : pipeline := p ++ [Incr k].

Definition p_expireat (p : pipeline) (k : string) (t : Z) : pipeline :=
  p ++ [ExpireAt k t].

(** [p.execute()]: one round trip; the batch is sent, and either the server
    runs it in order (MULTI/EXEC) at the current second or the client raises
    [ConnectionError]. *)
Definition p_execute (p : pipeline) : M (list Z) :=
  fun w =>
    let w1 := log_batch p w in
    if w_store_up w1 then
      let '(rs, c, e) := run_cmds (w_clock w1) p (w_counters w1) (w_expiry w1) in
      (Ok rs, set_store c e w1)
    else (Raise ConnectionError, w1).

(** [RateLimit.__init__(self, key_prefix, limit, per, send_x_headers)] *)
Definition RateLimit_init (key_prefix : string) (limit per : Z)
  (send_x_headers : bool) : M RateLimit :=
  let* t := time_now in
  let* q := py_floordiv t per in
  let reset := q * per + per in
  let key := String.append key_prefix (py_str reset) in
  let p := p_expireat (p_incr [] key) key (reset + expiration_window) in
  let* rs := p_execute p in
  let* c := py_index0 rs in
  ret (mk_RateLimit reset key limit per send_x_headers (Z.min c limit)).

(** ** The decorator [ratelimit] and the default rejection handler *)

(** [get_view_rate_limit() = getattr(g, '_view_rate_limit', None)] *)
Definition get_view_rate_limit : M (option RateLimit) := fun w => (Ok (w_g w), w).

(** [jsonify({'data': 'You hit the rate limit', 'error': '429'})] *)
Definition rejection_body : json :=
  JObj [("data", JStr "You hit the rate limit"); ("error", JStr "429")]%string.

(** [on_over_limit(limit)] returns [(jsonify(...), 429)]. *)
Definition on_over_limit (_ : RateLimit) : response :=
  mk_response rejection_body 429 [].

(** [scope_func=lambda: request.remote_addr], [key_func=lambda: request.endpoint] *)
Definition default_scope_func (r : request) : string := remote_addr r.
Definition default_key_func (r : request) : string := endpoint r.

Definition read_request (fn : request -> string) : M string :=
  fun w => (Ok (fn (w_req w)), w).

(** Calling the wrapped view [f] with the request arguments: the call is counted. *)
Definition invoke (f : M response) : M response :=
  fun w => f (bump_f_calls w).

(** ['rate-limit/%s/%s/' % (key_func(), scope_func())] *)
Definition rate_limit_key (kf sf : string) : string :=
  String.append "rate-limit/" (String.append kf (String.append "/" (String.append sf "/"))).

(** [ratelimit(limit, per, send_x_headers, over_limit, scope_func, key_func)]
    applied to a view [f] gives [rate_limited]; [over_limit = None] is [None],
    the default handler is [Some on_over_limit]. *)
Definition ratelimit (limit per : Z) (send_x_headers : bool)
  (over_limit_h : option (RateLimit -> response))
  (scope_func key_func : request -> string) (f : M response) : M response :=
  let* kf := read_request key_func in
  let* sf := read_request scope_func in
  let key := rate_limit_key kf sf in
  let* rlimit := RateLimit_init key limit per send_x_headers in
  let* _u := modify (set_g (Some rlimit)) in
  match over_limit_h with
  | Some h => if over_limit rlimit then ret (h rlimit) else invoke f
  | None => invoke f
  end.

(** A view decorated with [@ratelimit(limit=.., per=..)] and the defaults. *)
Definition ratelimit_default (limit per : Z) (f : M response) : M response :=
  ratelimit limit per true (Some on_over_limit) default_scope_func default_key_func f.

(** ** [@app.after_request inject_x_rate_headers] *)

Definition add_header (k v : string) (r : response) : response :=
  mk_response (body r) (status r) (headers r ++ [(k, v)]).

Definition inject_x_rate_headers (lim : option RateLimit) (resp : response) : response :=
  match lim with
  | Some l =>
      if send_x_headers l then
        add_header "X-RateLimit-Reset" (py_str (reset l))
          (add_header "X-RateLimit-Limit" (py_str (limit l))
            (add_header "X-RateLimit-Remaining" (py_str (remaining l)) resp))
      else resp
  | None => resp
  end.

(** Flask's handling of one request: [g] starts empty, the view runs, an
    unhandled exception becomes the 500 response of [handle_exception], and
    the [after_request] hooks run on the final response. *)
Definition internal_server_error : response :=
  mk_response (JStr "Internal Server Error") 500 [].

Definition handle_request (req : request) (view : M response) : M response :=
  fun w =>
    let w0 := mk_world (w_clock w) req (w_counters w) (w_expiry w) (w_store_up w)
                (w_batches w) None (w_f_calls w) in
    match view w0 with
    | (Ok r, w1) => (Ok (inject_x_rate_headers (w_g w1) r), w1)
    | (Raise _, w1) => (Ok (inject_x_rate_headers (w_g w1) internal_server_error), w1)
    end.

(** ** Unfolding lemmas for the admission check *)

Definition window_end (now per : Z) : Z := now / per * per + per.

Definition counter_key (prefix : string) (now per : Z) : string :=
  String.append prefix (py_str (window_end now per)).

(** The pipeline [RateLimit.__init__] sends. *)
Definition rl_batch (k : string) (reset : Z) : list cmd :=
  [Incr k; ExpireAt k (reset + expiration_window)].

(** The value INCR returns for key [k] at time [now]. *)
Definition incr_value (now : Z) (cnt exp : gmap string Z) (k : string) : Z :=
  match live_value now cnt exp k with Some c => c + 1 | None => 1 end.

(** Redis's state after the batch [rl_batch k reset] at time [now], [v] being
    the INCR reply: the key holds [v] with expiry [reset + 10], or is deleted
    when that deadline has already passed. *)
Definition store_after (now : Z) (k : string) (reset v : Z) (cnt exp : gmap string Z)
  : gmap string Z * gmap string Z :=
  if reset + expiration_window <=? now then (delete k cnt, delete k exp)
  else (<[k:=v]> cnt, <[k:=reset + expiration_window]> exp).

(** ** Concrete requests used by the scenarios *)

Definition req_demo : request := mk_request "events_hourly" "1.2.3.4".

(** A fresh Redis at clock 1000, reachable or not. *)
Definition w_demo (up : bool) : world := mk_world 1000 req_demo ∅ ∅ up [] None 0.

(** A view returning its rows with status 200. *)
Definition view_ok : M response := ret (mk_response (JStr "rows") 200 []).

(** [n] sequential requests to the same view. *)
Fixpoint run_requests (n : nat) (req : request) (view : M response) (w : world)
  : list (result response) * world :=
  match n with
  | O => ([], w)
  | S n' =>
      let '(r, w1) := handle_request req view w in
      let '(rs, w2) := run_requests n' req view w1 in (r :: rs, w2)
  end.

Definition status_of (r : result response) : Z :=
  match r with Ok resp => status resp | Raise _ => 500 end.

(** The integer Redis holds under [k] at time [now], [0] for a missing or
    expired key (what INCR starts from). *)
Definition count_at (now : Z) (cnt exp : gmap string Z) (k : string) : Z :=
  match live_value now cnt exp k with Some c => c | None => 0 end.

(** Whether a string contains no ['/'] (Flask endpoint names and client
    addresses do not). *)
Fixpoint slash_free (s : string) : bool :=
  match s with
  | EmptyString => true
  | String c s' => negb (Ascii.eqb c "/"%char) && slash_free s'
  end.

(** ** The database helpers [query_helper], [geostats_helper],
    [geoevents_helper]

    The rows come from [conn.execute(query).fetchall()]; cell values are left
    abstract (type [C]).  The helpers return the Python value handed to
    [jsonify]. *)

(** Python values built by the helpers: strings, database cells, lists and
    dicts (kept in insertion order). *)
Inductive pyval (C : Type) : Type :=
| PStr (s : string)
| PCell (c : C)
| PList (l : list (pyval C))
| PDict (fields : list (string * pyval C)).
Arguments PStr {C} s.
Arguments PCell {C} c.
Arguments PList {C} l.
Arguments PDict {C} fields.

Definition rbind_r {A B} (m : result A) (k : A -> result B) : result B :=
  match m with Ok a => k a | Raise e => Raise e end.

Notation "'let?' x ':=' m 'in' k" := (rbind_r m (fun x => k))
  (at level 200, x ident, m at level 100, k at level 200).

(** [row[i]] on a sequence, negative indices counting from the end, and
    [IndexError] out of range. *)
Definition py_getitem {A} (l : list A) (i : Z) : result A :=
  let n := Z.of_nat (length l) in
  let j := if i <? 0 then i + n else i in
  if (0 <=? j) && (j <? n) then
    match nth_error l (Z.to_nat j) with Some x => Ok x | None => Raise IndexError end
  else Raise IndexError.

(** [features = []; for row in result: ...; features.append(obj)] *)
Fixpoint build_features {C} (mk : list C -> result (pyval C)) (rows : list (list C))
  : result (list (pyval C)) :=
  match rows with
  | [] => Ok []
  | row :: rows' =>
      let? obj := mk row in
      let? objs := build_features mk rows' in
      Ok (obj :: objs)
  end.

Definition crs_value {C} : pyval C :=
  PDict [("type", PStr "name");
         ("properties", PDict [("name", PStr "urn:ogc:def:crs:OGC:1.3:CRS84")])]%string.

Definition feature_collection {C} (features : list (pyval C)) : pyval C :=
  PDict [("type", PStr "FeatureCollection"); ("crs", crs_value);
         ("features", PList features)]%string.

(** The [obj] built for one row by [geostats_helper]. *)
Definition geostats_feature {C} (row : list C) : result (pyval C) :=
  let? lon := py_getitem row (-2) in
  let? lat := py_getitem row (-1) in
  let? c0 := py_getitem row 0 in
  let? c1 := py_getitem row 1 in
  let? c2 := py_getitem row 2 in
  let? c3 := py_getitem row 3 in
  let? c4 := py_getitem row 4 in
  Ok (PDict [("type", PStr "Feature");
             ("geometry", PDict [("type", PStr "Point");
                                 ("coordinates", PList [PCell lon; PCell lat])]);
             ("properties", PDict [("date", PCell c0); ("hour", PCell c1);
                                   ("impressions", PCell c2); ("clicks", PCell c3);
                                   ("revenue", PCell c4)])])%string.

Definition geostats_helper {C} (rows : list (list C)) : result (pyval C) :=
  let? features := build_features geostats_feature rows in
  Ok (feature_collection features).

(** The [obj] built for one row by [geoevents_helper]. *)
Definition geoevents_feature {C} (row : list C) : result (pyval C) :=
  let? lon := py_getitem row (-2) in
  let? lat := py_getitem row (-1) in
  let? c0 := py_getitem row 0 in
  let? c1 := py_getitem row 1 in
  let? c2 := py_getitem row 2 in
  Ok (PDict [("type", PStr "Feature");
             ("geometry", PDict [("type", PStr "Point");
                                 ("coordinates", PList [PCell lon; PCell lat])]);
             ("properties", PDict [("date", PCell c0); ("hour", PCell c1);
                                   ("events", PCell c2)])])%string.

Definition geoevents_helper {C} (rows : list (list C)) : result (pyval C) :=
  let? features := build_features geoevents_feature rows in
  Ok (feature_collection features).

(** Python [d[k] = v] on a dict kept as its items in insertion order: an
    existing key keeps its position and takes the new value. *)
Fixpoint dict_set {V} (d : list (string * V)) (k : string) (v : V) : list (string * V) :=
  match d with
  | [] => [(k, v)]
  | (k', v') :: d' => if String.eqb k' k then (k', v) :: d' else (k', v') :: dict_set d' k v
  end.

(** [dict(items)] *)
Definition dict_of_items {V} (items : list (string * V)) : list (string * V) :=
  fold_left (fun d kv => dict_set d (fst kv) (snd kv)) items [].


(** [query_helper]: [[dict(row.items()) for row in result]], each row given
    as its [(column, value)] items. *)
Definition query_helper {C} (rows : list (list (string * C))) : pyval C :=
  PList (map (fun row => PDict (map (fun kv => (fst kv, PCell (snd kv))) (dict_of_items row))) rows).

Lemma run_cmds_rl_batch (now : Z) (k : string) (reset : Z) (cnt exp : gmap string Z) :
  run_cmds now (rl_batch k reset) cnt exp =
  ([incr_value now cnt exp k; 1],
   fst (store_after now k reset (incr_value now cnt exp k) cnt exp),
   snd (store_after now k reset (incr_value now cnt exp k) cnt exp)).
Proof.
  unfold rl_batch, store_after, incr_value. cbn [run_cmds].
  destruct (live_value now cnt exp k) as [c|] eqn:Hl.
  - assert (Hl' : live_value now (<[k:=c + 1]> cnt) exp k = Some (c + 1)).
    { revert Hl. unfold live_value. rewrite lookup_insert_eq.
      destruct (cnt !! k); [|discriminate].
      destruct (exp !! k) as [t|]; [destruct (t <=? now)|]; congruence. }
    rewrite Hl'.
    destruct (reset + expiration_window <=? now); simpl;
      [rewrite delete_insert_eq|]; reflexivity.
  - assert (Hl' : live_value now (<[k:=1]> cnt) (delete k exp) k = Some 1).
    { unfold live_value. rewrite lookup_insert_eq, lookup_delete_eq. reflexivity. }
    rewrite Hl'.
    destruct (reset + expiration_window <=? now); simpl;
      [rewrite delete_insert_eq, delete_delete_eq|rewrite insert_delete_eq]; reflexivity.
Qed.

Lemma p_build (k : string) (t : Z) :
  p_expireat (p_incr [] k) k t = [Incr k; ExpireAt k t].
Proof. reflexivity. Qed.

Lemma RateLimit_init_up (prefix : string) (lim per : Z) (send : bool) (w : world) :
  per <> 0 -> w_store_up w = true ->
  let k := counter_key prefix (w_clock w) per in
  let rs := window_end (w_clock w) per in
  let v := incr_value (w_clock w) (w_counters w) (w_expiry w) k in
  RateLimit_init prefix lim per send w =
  (Ok (mk_RateLimit rs k lim per send (Z.min v lim)),
   set_store (fst (store_after (w_clock w) k rs v (w_counters w) (w_expiry w)))
     (snd (store_after (w_clock w) k rs v (w_counters w) (w_expiry w)))
     (log_batch (rl_batch k rs) w)).
Proof.
  intros Hper Hup k rs v.
  unfold RateLimit_init, rbind, time_now, py_floordiv.
  rewrite <- Z.eqb_neq in Hper. rewrite Hper.
  unfold ret, p_execute. rewrite p_build. simpl w_store_up. rewrite Hup.
  simpl w_counters. simpl w_expiry. simpl w_clock.
  change [Incr (String.append prefix (py_str (w_clock w / per * per + per)));
          ExpireAt (String.append prefix (py_str (w_clock w / per * per + per)))
            (w_clock w / per * per + per + expiration_window)] with (rl_batch k rs).
  rewrite run_cmds_rl_batch. reflexivity.
Qed.

Lemma RateLimit_init_down (prefix : string) (lim per : Z) (send : bool) (w : world) :
  per <> 0 -> w_store_up w = false ->
  RateLimit_init prefix lim per send w =
  (Raise ConnectionError,
   log_batch (rl_batch (counter_key prefix (w_clock w) per) (window_end (w_clock w) per)) w).
Proof.
  intros Hper Hdown.
  unfold RateLimit_init, rbind, time_now, py_floordiv.
  rewrite <- Z.eqb_neq in Hper. rewrite Hper.
  unfold ret, p_execute. rewrite p_build. simpl w_store_up. rewrite Hdown.
  reflexivity.
Qed.

Lemma RateLimit_init_per0 (prefix : string) (lim : Z) (send : bool) (w : world) :
  RateLimit_init prefix lim 0 send w = (Raise ZeroDivisionError, w).
Proof. reflexivity. Qed.

Lemma ratelimit_unfold (lim per : Z) (send : bool) (h : option (RateLimit -> response))
  (sf kf : request -> string) (f : M response) (w : world) :
  ratelimit lim per send h sf kf f w =
  match RateLimit_init (rate_limit_key (kf (w_req w)) (sf (w_req w))) lim per send w with
  | (Ok r, w1) =>
      match h with
      | Some hh => if over_limit r then (Ok (hh r), set_g (Some r) w1)
                   else invoke f (set_g (Some r) w1)
      | None => invoke f (set_g (Some r) w1)
      end
  | (Raise e, w1) => (Raise e, w1)
  end.
Proof.
  unfold ratelimit, rbind, read_request, modify.
  destruct (RateLimit_init _ _ _ _ w) as [[r|e] w1]; [|reflexivity].
  destruct h; [destruct (over_limit r)|]; reflexivity.
Qed.

Lemma RateLimit_init_ok (prefix : string) (lim per : Z) (send : bool)
  (w : world) (r : RateLimit) (w' : world) :
  RateLimit_init prefix lim per send w = (Ok r, w') ->
  let k := counter_key prefix (w_clock w) per in
  let rs := window_end (w_clock w) per in
  let v := incr_value (w_clock w) (w_counters w) (w_expiry w) k in
  per <> 0 /\ w_store_up w = true /\
  r = mk_RateLimit rs k lim per send (Z.min v lim) /\
  w' = set_store (fst (store_after (w_clock w) k rs v (w_counters w) (w_expiry w)))
         (snd (store_after (w_clock w) k rs v (w_counters w) (w_expiry w)))
         (log_batch (rl_batch k rs) w).
Proof.
  intros H k rs v.
  destruct (Z.eq_dec per 0) as [->|Hper].
  { rewrite RateLimit_init_per0 in H. discriminate. }
  destruct (w_store_up w) eqn:Hup.
  - rewrite (RateLimit_init_up prefix lim per send w Hper Hup) in H.
    injection H as <- <-. auto.
  - rewrite (RateLimit_init_down prefix lim per send w Hper Hup) in H. discriminate.
Qed.

(** An admission check that raises leaves the view uncalled and [g] as it
    was. *)
Lemma RateLimit_init_raise (prefix : string) (lim per : Z) (send : bool)
  (w : world) (e : exn) (w' : world) :
  RateLimit_init prefix lim per send w = (Raise e, w') ->
  w_f_calls w' = w_f_calls w /\ w_g w' = w_g w.
Proof.
  intros H.
  destruct (Z.eq_dec per 0) as [->|Hper].
  { rewrite RateLimit_init_per0 in H. injection H as _ <-. auto. }
  destruct (w_store_up w) eqn:Hup.
  - rewrite (RateLimit_init_up prefix lim per send w Hper Hup) in H. discriminate.
  - rewrite (RateLimit_init_down prefix lim per send w Hper Hup) in H.
    injection H as _ <-. auto.
Qed.

(** ** [str] of an integer is injective *)

Lemma str_of_uint_inj (d1 d2 : Decimal.uint) :
  str_of_uint d1 = str_of_uint d2 -> d1 = d2.
Proof.
  revert d2; induction d1; intros d2; destruct d2; simpl; intros H;
    try discriminate; try reflexivity;
    injection H as H; f_equal; auto.
Qed.

Lemma str_of_uint_not_minus (d : Decimal.uint) (s : string) :
  str_of_uint d <> String "-"%char s.
Proof. destruct d; simpl; discriminate. Qed.

Lemma py_str_inj (a b : Z) : py_str a = py_str b -> a = b.
Proof.
  unfold py_str. intros H. apply DecimalZ.to_int_inj.
  destruct (Z.to_int a) as [da|da], (Z.to_int b) as [db|db].
  - f_equal. now apply str_of_uint_inj.
  - exfalso. exact (str_of_uint_not_minus _ _ H).
  - exfalso. symmetry in H. exact (str_of_uint_not_minus _ _ H).
  - injection H as H. f_equal. now apply str_of_uint_inj.
Qed.

Lemma append_inj_r (p a b : string) :
  String.append p a = String.append p b -> a = b.
Proof. induction p as [|c p IH]; simpl; [auto|]. intros H. injection H. auto. Qed.

Lemma window_end_inj (t1 t2 per : Z) :
  0 < per -> t1 / per <> t2 / per -> window_end t1 per <> window_end t2 per.
Proof. unfold window_end. intros Hp Hne Heq. apply Hne. nia. Qed.

Lemma over_limit_iff_count_reaches_limit (lim v : Z) (r : RateLimit) :
  limit r = lim -> current r = Z.min v lim -> over_limit r = (lim <=? v).
Proof.
  intros Hl Hc. unfold over_limit. rewrite Hl, Hc.
  destruct (Z.le_gt_cases lim v).
  - rewrite Z.min_r by lia. rewrite !(proj2 (Z.leb_le _ _)) by lia. reflexivity.
  - rewrite Z.min_l by lia. rewrite !(proj2 (Z.leb_gt _ _)) by lia. reflexivity.
Qed.

(** ** Claims *)

(** C1 (code_bug): with [limit=2, per=60], three sequential requests with the
    same scope in one window are answered 200, 429, 429: the second call is
    already rejected, because [over_limit] compares the post-increment count
    with [>=], so only [limit - 1] calls per window are admitted. *)
Theorem C1_limit2_second_call_rejected :
  let '(rs, w) := run_requests 3 req_demo (ratelimit_default 2 60 view_ok) (w_demo true) in
  map status_of rs = [200; 429; 429] /\
  nth 1 rs (Raise IndexError) =
    Ok (mk_response rejection_body 429
          [("X-RateLimit-Remaining", "0"); ("X-RateLimit-Limit", "2");
           ("X-RateLimit-Reset", "1020")])%string /\
  w_f_calls w = 1%nat.
Proof. vm_compute. repeat split. Qed.

(** C2 (corrected, counterexample): with Redis unreachable, the request is
    not admitted: the view is never called and Flask answers 500. *)
Lemma C2_store_down_not_fail_open :
  let '(r, w) := handle_request req_demo (ratelimit_default 100 60 view_ok) (w_demo false) in
  r = Ok internal_server_error /\ w_f_calls w = 0%nat.
Proof. vm_compute. split; reflexivity. Qed.

(** C2 (corrected): when the Redis round trip fails, the [ConnectionError]
    propagates out of the wrapper: the view is not invoked, no result is
    attached to [g], and the request ends as the 500 response with no
    rate-limit headers. *)
Theorem C2_store_failure_propagates (lim per : Z) (send : bool)
  (h : option (RateLimit -> response)) (sf kf : request -> string)
  (f : M response) (req : request) (w : world) :
  per <> 0 -> w_store_up w = false ->
  (exists w', ratelimit lim per send h sf kf f w = (Raise ConnectionError, w') /\
              w_f_calls w' = w_f_calls w /\ w_g w' = w_g w) /\
  fst (handle_request req (ratelimit lim per send h sf kf f) w) = Ok internal_server_error.
Proof.
  intros Hper Hdown. split.
  - rewrite ratelimit_unfold, RateLimit_init_down by assumption.
    eexists. split; [reflexivity|]. split; reflexivity.
  - unfold handle_request.
    rewrite ratelimit_unfold, RateLimit_init_down by assumption.
    reflexivity.
Qed.

Lemma C2_store_failure_propagates_witness :
  (60 <> 0 /\ w_store_up (w_demo false) = false) /\
  fst (handle_request req_demo (ratelimit_default 100 60 view_ok) (w_demo false))
    = Ok internal_server_error.
Proof.
  split; [split; [lia|reflexivity]|].
  exact (proj2 (C2_store_failure_propagates 100 60 true (Some on_over_limit)
           default_scope_func default_key_func view_ok req_demo (w_demo false)
           ltac:(lia) eq_refl)).
Defined.

(** C3: the result of an admission check has [over_limit = true] exactly
    when its [current] count is at least the configured limit. *)
Theorem C3_over_limit_iff_current_ge_limit (prefix : string) (lim per : Z)
  (send : bool) (w : world) (r : RateLimit) (w' : world) :
  RateLimit_init prefix lim per send w = (Ok r, w') ->
  limit r = lim /\ (over_limit r = true <-> lim <= current r).
Proof.
  intros H. apply RateLimit_init_ok in H as (_ & _ & -> & _).
  unfold over_limit; simpl. split; [reflexivity|]. apply Z.leb_le.
Qed.

Lemma C3_over_limit_iff_current_ge_limit_witness :
  (exists r w', RateLimit_init "k/" 2 60 true (w_demo true) = (Ok r, w') /\
                limit r = 2 /\ (over_limit r = true <-> 2 <= current r)).
Proof.
  destruct (RateLimit_init "k/" 2 60 true (w_demo true)) as [[r|e] w'] eqn:E.
  - exists r, w'. split; [reflexivity|].
    exact (C3_over_limit_iff_current_ge_limit "k/" 2 60 true (w_demo true) r w' E).
  - vm_compute in E. discriminate.
Defined.

(** C4: [remaining] of an admission check equals [max(limit - raw, 0)] where
    [raw] is the raw counter value Redis replies to the check's INCR (the
    first reply of the batch the check sends), while [current] is [raw]
    capped at the limit; so [remaining] is never negative, even when [raw]
    exceeds the limit. *)
Theorem C4_remaining_nonneg (prefix : string) (lim per : Z) (send : bool)
  (w : world) (r : RateLimit) (w' : world) :
  RateLimit_init prefix lim per send w = (Ok r, w') ->
  exists raw rest,
    fst (fst (run_cmds (w_clock w) (rl_batch (key r) (reset r)) (w_counters w) (w_expiry w)))
      = raw :: rest /\
    last (w_batches w') = Some (rl_batch (key r) (reset r)) /\
    current r = Z.min raw lim /\
    remaining r = Z.max (lim - raw) 0 /\ 0 <= remaining r.
Proof.
  intros H. apply RateLimit_init_ok in H as (_ & _ & -> & ->). cbn [key reset].
  rewrite run_cmds_rl_batch. do 2 eexists. split; [reflexivity|].
  split; [apply last_snoc|].
  unfold remaining; simpl. split; [reflexivity|]. split; lia.
Qed.

Lemma C4_remaining_nonneg_witness :
  exists r w' raw rest,
    RateLimit_init "k/" 2 60 true (w_demo true) = (Ok r, w') /\
    fst (fst (run_cmds 1000 (rl_batch (key r) (reset r)) ∅ ∅)) = raw :: rest /\
    raw = 1 /\ remaining r = 1.
Proof.
  destruct (RateLimit_init "k/" 2 60 true (w_demo true)) as [[r|e] w'] eqn:E;
    [|vm_compute in E; discriminate].
  destruct (C4_remaining_nonneg "k/" 2 60 true (w_demo true) r w' E)
    as (raw & rest & Hraw & _ & _ & Hrem & _).
  exists r, w', raw, rest. split; [reflexivity|]. split; [exact Hraw|].
  vm_compute in E. injection E as <- _. vm_compute in Hraw. injection Hraw as <- _.
  split; [reflexivity|]. rewrite Hrem. reflexivity.
Defined.

(** C5 (corrected, counterexample): nothing is checked when the view is
    wrapped.  With [per=0] the wrapped view raises [ZeroDivisionError] on
    each request (Flask answers 500); with [limit=0] every request is
    rejected with 429. *)
Lemma C5_invalid_config_fails_per_request :
  fst (ratelimit_default 100 0 view_ok (w_demo true)) = Raise ZeroDivisionError /\
  fst (handle_request req_demo (ratelimit_default 100 0 view_ok) (w_demo true))
    = Ok internal_server_error /\
  status_of (fst (handle_request req_demo (ratelimit_default 0 60 view_ok) (w_demo true)))
    = 429.
Proof. vm_compute. repeat split. Qed.

(** C5 (corrected): [ratelimit] validates neither [limit] nor [per]; the
    wrapped view is always built.  With [per = 0] every request through the
    wrapper raises [ZeroDivisionError] before Redis is contacted, whatever
    the limit, the handler and the store; with a non-zero [per], a
    non-positive limit, an over-limit handler, a reachable Redis and
    non-negative counters, every request is handed to the handler and the
    view is not invoked. *)
Theorem C5_no_config_validation (lim per : Z) (send : bool)
  (hh : RateLimit -> response) (sf kf : request -> string) (f : M response)
  (w : world) :
  (forall (lim0 : Z) (h : option (RateLimit -> response)) (w0 : world),
     ratelimit lim0 0 send h sf kf f w0 = (Raise ZeroDivisionError, w0)) /\
  (per <> 0 -> lim <= 0 -> w_store_up w = true ->
   map_Forall (fun _ v => 0 <= v) (w_counters w) ->
   exists r w', ratelimit lim per send (Some hh) sf kf f w = (Ok (hh r), w') /\
                w_f_calls w' = w_f_calls w).
Proof.
  split.
  - intros lim0 h w0. rewrite ratelimit_unfold, RateLimit_init_per0. reflexivity.
  - intros Hper Hlim Hup Hnn.
    rewrite ratelimit_unfold, RateLimit_init_up by assumption.
    set (k := counter_key _ _ _).
    assert (Hv : 1 <= incr_value (w_clock w) (w_counters w) (w_expiry w) k).
    { unfold incr_value, live_value.
      destruct (w_counters w !! k) eqn:E; [|lia].
      pose proof (map_Forall_lookup_1 _ _ _ _ Hnn E) as Hz. simpl in Hz.
      destruct (w_expiry w !! k) as [t|]; [destruct (t <=? w_clock w)|]; lia. }
    unfold over_limit; simpl. rewrite Z.min_r by lia. rewrite Z.leb_refl.
    do 2 eexists. split; [reflexivity|]. reflexivity.
Qed.

Lemma C5_no_config_validation_witness :
  ratelimit_default 100 0 view_ok (w_demo true) = (Raise ZeroDivisionError, w_demo true) /\
  (60 <> 0 /\ 0 <= 0 /\ w_store_up (w_demo true) = true /\
   map_Forall (fun _ v => 0 <= v) (w_counters (w_demo true))) /\
  exists r w', ratelimit_default 0 60 view_ok (w_demo true) = (Ok (on_over_limit r), w') /\
               w_f_calls w' = 0%nat.
Proof.
  assert (Hnn : map_Forall (fun (_ : string) (v : Z) => 0 <= v) (w_counters (w_demo true)))
    by apply map_Forall_empty.
  pose proof (C5_no_config_validation 0 60 true on_over_limit default_scope_func
                default_key_func view_ok (w_demo true)) as [H0 H1].
  split; [exact (H0 100 (Some on_over_limit) (w_demo true))|].
  split; [repeat split; [lia|lia|exact Hnn]|].
  exact (H1 ltac:(lia) ltac:(lia) eq_refl Hnn).
Defined.

(** C6: with the default handler, when the admission check's result is over
    the limit, the view is not invoked and the response is the JSON body
    [{"data": "You hit the rate limit", "error": "429"}] with status 429. *)
Theorem C6_over_limit_rejects (lim per : Z) (send : bool) (sf kf : request -> string)
  (f : M response) (w : world) (r : RateLimit) (w1 : world) :
  RateLimit_init (rate_limit_key (kf (w_req w)) (sf (w_req w))) lim per send w = (Ok r, w1) ->
  over_limit r = true ->
  ratelimit lim per send (Some on_over_limit) sf kf f w
    = (Ok (on_over_limit r), set_g (Some r) w1) /\
  w_f_calls (set_g (Some r) w1) = w_f_calls w /\
  body (on_over_limit r)
    = JObj [("data", JStr "You hit the rate limit"); ("error", JStr "429")]%string /\
  status (on_over_limit r) = 429.
Proof.
  intros Hinit Hover.
  rewrite ratelimit_unfold, Hinit, Hover.
  apply RateLimit_init_ok in Hinit as (_ & _ & _ & ->).
  repeat split.
Qed.

Lemma C6_over_limit_rejects_witness :
  exists r w1,
    RateLimit_init (rate_limit_key "events_hourly" "1.2.3.4") 1 60 true (w_demo true)
      = (Ok r, w1) /\ over_limit r = true /\
    ratelimit_default 1 60 view_ok (w_demo true) = (Ok (on_over_limit r), set_g (Some r) w1).
Proof.
  destruct (RateLimit_init (rate_limit_key "events_hourly" "1.2.3.4") 1 60 true (w_demo true))
    as [[r|e] w1] eqn:E.
  - assert (Ho : over_limit r = true).
    { vm_compute in E. injection E as <- _. reflexivity. }
    exists r, w1. split; [reflexivity|]. split; [exact Ho|].
    exact (proj1 (C6_over_limit_rejects 1 60 true default_scope_func default_key_func
                    view_ok (w_demo true) r w1 E Ho)).
  - vm_compute in E. discriminate.
Defined.

(** C7: each admission check (with [per <> 0]) submits exactly one Redis
    batch, [INCR key] then [EXPIREAT key (window_end + 10)], whether or not
    the round trip then succeeds; the deadline is never before [window_end].
    On success Redis records exactly that expiry for the key when the
    deadline is still ahead of the clock, and deletes the key when it has
    already passed. *)
Theorem C7_one_batch_incr_expireat (prefix : string) (lim per : Z) (send : bool)
  (w : world) :
  per <> 0 ->
  w_batches (snd (RateLimit_init prefix lim per send w))
    = w_batches w ++
      [[Incr (counter_key prefix (w_clock w) per);
        ExpireAt (counter_key prefix (w_clock w) per) (window_end (w_clock w) per + 10)]] /\
  expiration_window = 10 /\
  window_end (w_clock w) per <= window_end (w_clock w) per + expiration_window /\
  (w_store_up w = true ->
   (w_clock w < window_end (w_clock w) per + expiration_window ->
    w_expiry (snd (RateLimit_init prefix lim per send w))
      !! counter_key prefix (w_clock w) per
    = Some (window_end (w_clock w) per + expiration_window)) /\
   (window_end (w_clock w) per + expiration_window <= w_clock w ->
    w_counters (snd (RateLimit_init prefix lim per send w))
      !! counter_key prefix (w_clock w) per = None /\
    w_expiry (snd (RateLimit_init prefix lim per send w))
      !! counter_key prefix (w_clock w) per = None)).
Proof.
  intros Hper.
  destruct (w_store_up w) eqn:Hup.
  - rewrite (RateLimit_init_up prefix lim per send w Hper Hup). cbv zeta. simpl.
    split; [reflexivity|]. split; [reflexivity|].
    split; [unfold expiration_window; lia|]. intros _.
    unfold store_after. split; intros Hc.
    + rewrite (proj2 (Z.leb_gt _ _) Hc). apply lookup_insert_eq.
    + rewrite (proj2 (Z.leb_le _ _) Hc). split; apply lookup_delete_eq.
  - rewrite (RateLimit_init_down prefix lim per send w Hper Hup). simpl.
    split; [reflexivity|]. split; [reflexivity|].
    split; [unfold expiration_window; lia|]. discriminate.
Qed.

Lemma C7_one_batch_incr_expireat_witness :
  60 <> 0 /\
  w_batches (snd (RateLimit_init "rate-limit/events_hourly/1.2.3.4/" 100 60 true (w_demo false)))
    = [[Incr "rate-limit/events_hourly/1.2.3.4/1020"; ExpireAt "rate-limit/events_hourly/1.2.3.4/1020" 1030]]%string /\
  w_counters (snd (RateLimit_init "p/" 100 (-60) true (w_demo true))) !! "p/960"%string = None.
Proof.
  split; [lia|]. split.
  - exact (proj1 (C7_one_batch_incr_expireat "rate-limit/events_hourly/1.2.3.4/" 100 60 true
                    (w_demo false) ltac:(lia))).
  - destruct (C7_one_batch_incr_expireat "p/" 100 (-60) true (w_demo true) ltac:(lia))
      as (_ & _ & _ & H).
    destruct H as [_ H]; [reflexivity|].
    exact (proj1 (H ltac:(vm_compute; discriminate))).
Defined.

(** C8: the counter key is the prefix followed by [str(window_end)], with
    [window_end = (now // per) * per + per]; two checks with the same prefix
    at times in different windows use distinct keys. *)
Theorem C8_distinct_windows_distinct_keys (prefix : string) (lim1 lim2 per : Z)
  (send1 send2 : bool) (w1 w2 : world) (r1 r2 : RateLimit) (w1' w2' : world) :
  0 < per ->
  RateLimit_init prefix lim1 per send1 w1 = (Ok r1, w1') ->
  RateLimit_init prefix lim2 per send2 w2 = (Ok r2, w2') ->
  w_clock w1 / per <> w_clock w2 / per ->
  reset r1 = w_clock w1 / per * per + per /\
  key r1 = String.append prefix (py_str (reset r1)) /\
  reset r2 = w_clock w2 / per * per + per /\
  key r2 = String.append prefix (py_str (reset r2)) /\
  key r1 <> key r2.
Proof.
  intros Hper H1 H2 Hne.
  apply RateLimit_init_ok in H1 as (_ & _ & -> & _).
  apply RateLimit_init_ok in H2 as (_ & _ & -> & _).
  simpl. repeat split.
  unfold counter_key. intros Heq.
  apply append_inj_r, py_str_inj in Heq.
  exact (window_end_inj _ _ _ Hper Hne Heq).
Qed.

Lemma C8_distinct_windows_distinct_keys_witness :
  exists r1 r2 w1' w2',
    RateLimit_init "p/" 2 60 true (w_demo true) = (Ok r1, w1') /\
    RateLimit_init "p/" 2 60 true
      (mk_world 1030 req_demo ∅ ∅ true [] None 0) = (Ok r2, w2') /\
    key r1 <> key r2.
Proof.
  destruct (RateLimit_init "p/" 2 60 true (w_demo true)) as [[r1|e1] w1'] eqn:E1;
    [|vm_compute in E1; discriminate].
  destruct (RateLimit_init "p/" 2 60 true (mk_world 1030 req_demo ∅ ∅ true [] None 0))
    as [[r2|e2] w2'] eqn:E2; [|vm_compute in E2; discriminate].
  exists r1, r2, w1', w2'. split; [reflexivity|]. split; [reflexivity|].
  refine (proj2 (proj2 (proj2 (proj2
           (C8_distinct_windows_distinct_keys "p/" 2 2 60 true true _ _ r1 r2 w1' w2'
              ltac:(lia) E1 E2 _))))).
  vm_compute. discriminate.
Defined.

(** C9: the [after_request] hook appends exactly [X-RateLimit-Remaining],
    [X-RateLimit-Limit] and [X-RateLimit-Reset] when a result with
    [send_x_headers] is attached, and leaves the response unchanged when none
    is attached; a single call to a view decorated with [limit=100, per=60]
    on an empty Redis gets [X-RateLimit-Remaining: 99], [X-RateLimit-Limit:
    100] and the next 60-second boundary as reset. *)
Theorem C9_rate_headers :
  (forall (l : RateLimit) (resp : response),
     inject_x_rate_headers (Some l) resp =
     if send_x_headers l then
       mk_response (body resp) (status resp)
         (headers resp ++
          [("X-RateLimit-Remaining"%string, py_str (remaining l));
           ("X-RateLimit-Limit"%string, py_str (limit l));
           ("X-RateLimit-Reset"%string, py_str (reset l))])
     else resp) /\
  (forall resp : response, inject_x_rate_headers None resp = resp) /\
  (forall (t : Z) (req req0 : request) (e : gmap string Z) (bs : list (list cmd))
          (gv : option RateLimit) (n : nat) (resp0 : response),
     fst (handle_request req (ratelimit_default 100 60 (ret resp0))
            (mk_world t req0 ∅ e true bs gv n)) =
     Ok (mk_response (body resp0) (status resp0)
           (headers resp0 ++
            [("X-RateLimit-Remaining"%string, "99"%string); ("X-RateLimit-Limit"%string, "100"%string);
             ("X-RateLimit-Reset"%string, py_str (t / 60 * 60 + 60))]))).
Proof.
  split; [|split].
  - intros l resp. unfold inject_x_rate_headers, add_header.
    destruct (send_x_headers l); simpl; [|reflexivity].
    rewrite <- !app_assoc. reflexivity.
  - reflexivity.
  - intros t req req0 e bs gv n resp0.
    unfold handle_request, ratelimit_default.
    rewrite ratelimit_unfold, RateLimit_init_up by (simpl; auto; lia).
    cbn [w_counters w_clock w_req w_g w_f_calls w_store_up w_batches w_expiry].
    unfold incr_value, live_value. rewrite lookup_empty.
    change (t / 60 * 60 + 60) with (window_end t 60).
    generalize (window_end t 60) as we.
    generalize (counter_key (rate_limit_key (default_key_func req) (default_scope_func req)) t 60)
      as k.
    intros k we. simpl. unfold add_header; simpl. rewrite <- !app_assoc. reflexivity.
Qed.

(** C10 (corrected, counterexample): with [over_limit=None] and Redis
    unreachable, the view is not invoked: the [ConnectionError] of the
    admission check propagates. *)
Lemma C10_handler_none_store_down :
  let '(r, w) := ratelimit 2 60 true None default_scope_func default_key_func view_ok
                   (w_demo false) in
  r = Raise ConnectionError /\ w_f_calls w = 0%nat.
Proof. vm_compute. split; reflexivity. Qed.

(** C10 (corrected): with [over_limit=None], when the admission check
    completes the view is invoked and its result returned unchanged, whether
    or not the result is over the limit; the INCR batch has been sent to
    Redis and the result is attached to [g].  When the admission check raises
    (Redis unreachable, or [per = 0]), the exception propagates: the view is
    not invoked and [g] is left as it was. *)
Theorem C10_handler_none_invokes_view (lim per : Z) (send : bool)
  (sf kf : request -> string) (f : M response) (w : world) :
  match RateLimit_init (rate_limit_key (kf (w_req w)) (sf (w_req w))) lim per send w with
  | (Ok r, w1) =>
      ratelimit lim per send None sf kf f w = f (bump_f_calls (set_g (Some r) w1)) /\
      w_g (bump_f_calls (set_g (Some r) w1)) = Some r /\
      w_f_calls (bump_f_calls (set_g (Some r) w1)) = S (w_f_calls w) /\
      w_batches w1 = w_batches w ++ [rl_batch (key r) (reset r)]
  | (Raise e, w1) =>
      ratelimit lim per send None sf kf f w = (Raise e, w1) /\
      w_f_calls w1 = w_f_calls w /\ w_g w1 = w_g w
  end.
Proof.
  rewrite ratelimit_unfold.
  destruct (RateLimit_init _ lim per send w) as [[r|e] w1] eqn:Hinit.
  - split; [reflexivity|]. split; [reflexivity|].
    apply RateLimit_init_ok in Hinit as (_ & _ & -> & ->). split; reflexivity.
  - split; [reflexivity|]. exact (RateLimit_init_raise _ _ _ _ _ _ _ Hinit).
Qed.

Lemma C10_handler_none_invokes_view_witness :
  (exists r w1,
    RateLimit_init (rate_limit_key "events_hourly" "1.2.3.4") 1 60 true (w_demo true)
      = (Ok r, w1) /\ over_limit r = true /\
    ratelimit 1 60 true None default_scope_func default_key_func view_ok (w_demo true)
      = view_ok (bump_f_calls (set_g (Some r) w1))) /\
  (exists w1,
    ratelimit 1 60 true None default_scope_func default_key_func view_ok (w_demo false)
      = (Raise ConnectionError, w1) /\ w_f_calls w1 = 0%nat).
Proof.
  split.
  - pose proof (C10_handler_none_invokes_view 1 60 true default_scope_func default_key_func
                  view_ok (w_demo true)) as H.
    cbn [w_req w_demo remote_addr endpoint req_demo default_scope_func default_key_func] in H.
    destruct (RateLimit_init (rate_limit_key "events_hourly" "1.2.3.4") 1 60 true (w_demo true))
      as [[r|e] w1] eqn:E; [|vm_compute in E; discriminate].
    assert (Ho : over_limit r = true).
    { vm_compute in E. injection E as <- _. reflexivity. }
    exists r, w1. split; [reflexivity|]. split; [exact Ho|]. exact (proj1 H).
  - pose proof (C10_handler_none_invokes_view 1 60 true default_scope_func default_key_func
                  view_ok (w_demo false)) as H.
    cbn [w_req w_demo remote_addr endpoint req_demo default_scope_func default_key_func] in H.
    destruct (RateLimit_init (rate_limit_key "events_hourly" "1.2.3.4") 1 60 true (w_demo false))
      as [[r|e] w1] eqn:E; [vm_compute in E; discriminate|].
    assert (He : e = ConnectionError) by (vm_compute in E; congruence).
    subst e. exists w1. split; [exact (proj1 H)|]. exact (proj1 (proj2 H)).
Defined.

(** ** Further properties of the code *)

Lemma incr_value_count_at (now : Z) (cnt exp : gmap string Z) (k : string) :
  incr_value now cnt exp k = count_at now cnt exp k + 1.
Proof. unfold incr_value, count_at. destruct (live_value now cnt exp k); lia. Qed.

Lemma count_at_store_after (now : Z) (k : string) (reset v : Z) (cnt exp : gmap string Z) :
  now < reset + expiration_window ->
  count_at now (fst (store_after now k reset v cnt exp))
    (snd (store_after now k reset v cnt exp)) k = v.
Proof.
  intros Hn. unfold store_after. rewrite (proj2 (Z.leb_gt _ _) Hn). simpl.
  unfold count_at, live_value. rewrite !lookup_insert_eq.
  rewrite (proj2 (Z.leb_gt _ _) Hn). reflexivity.
Qed.

Lemma store_after_expired (now : Z) (k : string) (reset v : Z) (cnt exp : gmap string Z) :
  reset + expiration_window <= now ->
  fst (store_after now k reset v cnt exp) !! k = None /\
  snd (store_after now k reset v cnt exp) !! k = None.
Proof.
  intros Hn. unfold store_after. rewrite (proj2 (Z.leb_le _ _) Hn). simpl.
  split; apply lookup_delete_eq.
Qed.

Lemma count_at_none (now : Z) (cnt exp : gmap string Z) (k : string) :
  cnt !! k = None -> count_at now cnt exp k = 0.
Proof. intros H. unfold count_at, live_value. rewrite H. reflexivity. Qed.

Lemma window_end_after (now per : Z) : 0 < per -> now < window_end now per.
Proof.
  intros Hp. unfold window_end.
  pose proof (Z.div_mod now per ltac:(lia)). pose proof (Z.mod_pos_bound now per Hp). lia.
Qed.

(** One request to a view decorated with [@ratelimit(limit=L, per=per)]:
    INCR of the scope's counter, the response (the view's or the 429 one)
    with the three headers, and the resulting world. *)
Lemma handle_request_default_step (L per : Z) (req : request) (resp0 : response)
  (w : world) :
  per <> 0 -> w_store_up w = true ->
  handle_request req (ratelimit_default L per (ret resp0)) w =
  let k := counter_key (rate_limit_key (endpoint req) (remote_addr req)) (w_clock w) per in
  let rs := window_end (w_clock w) per in
  let v := incr_value (w_clock w) (w_counters w) (w_expiry w) k in
  let r := mk_RateLimit rs k L per true (Z.min v L) in
  (Ok (inject_x_rate_headers (Some r) (if L <=? v then on_over_limit r else resp0)),
   mk_world (w_clock w) req
     (fst (store_after (w_clock w) k rs v (w_counters w) (w_expiry w)))
     (snd (store_after (w_clock w) k rs v (w_counters w) (w_expiry w))) true
     (w_batches w ++ [rl_batch k rs]) (Some r)
     (if L <=? v then w_f_calls w else S (w_f_calls w))).
Proof.
  intros Hper Hup.
  unfold handle_request, ratelimit_default.
  rewrite ratelimit_unfold, RateLimit_init_up by (simpl; auto).
  cbn [w_counters w_clock w_req w_g w_f_calls w_store_up w_batches w_expiry].
  set (k := counter_key _ _ _). set (v := incr_value _ _ _ k).
  rewrite (over_limit_iff_count_reaches_limit L v
             (mk_RateLimit (window_end (w_clock w) per) k L per true (Z.min v L))
             eq_refl eq_refl).
  destruct (L <=? v); rewrite Hup; reflexivity.
Qed.

(** The window end computed by [RateLimit.__init__] is a multiple of [per];
    with [per > 0] it lies strictly after the clock and at most one period
    later, while with [per < 0] Python's floor division puts it in the past,
    at most [-per] seconds before the clock. *)
Theorem window_end_bounds (prefix : string) (lim per : Z) (send : bool)
  (w : world) (r : RateLimit) (w' : world) :
  RateLimit_init prefix lim per send w = (Ok r, w') ->
  (0 < per -> w_clock w < reset r <= w_clock w + per) /\
  (per < 0 -> w_clock w + per <= reset r < w_clock w) /\
  reset r mod per = 0.
Proof.
  intros H. apply RateLimit_init_ok in H as (Hper & _ & -> & _).
  simpl. unfold window_end.
  pose proof (Z.div_mod (w_clock w) per Hper) as Hdm.
  split; [|split].
  - intros Hp. pose proof (Z.mod_pos_bound (w_clock w) per Hp). lia.
  - intros Hn. pose proof (Z.mod_neg_bound (w_clock w) per Hn). lia.
  - replace (w_clock w / per * per + per) with ((w_clock w / per + 1) * per) by ring.
    apply Z_mod_mult.
Qed.

Lemma window_end_bounds_witness :
  exists r w', RateLimit_init "p/" 2 60 true (w_demo true) = (Ok r, w') /\
               1000 < reset r <= 1060.
Proof.
  destruct (RateLimit_init "p/" 2 60 true (w_demo true)) as [[r|e] w'] eqn:E;
    [|vm_compute in E; discriminate].
  exists r, w'. split; [reflexivity|].
  exact (proj1 (window_end_bounds "p/" 2 60 true (w_demo true) r w' E) ltac:(lia)).
Defined.

(** An admission check touches only its own key: every other Redis counter
    and expiry is left as it was.  When the EXPIREAT deadline [reset + 10] is
    still ahead of the clock (always the case for [per > 0]), its own counter
    goes up by one; when the deadline has already passed, Redis deletes the
    key, counter and expiry. *)
Theorem RateLimit_init_local (prefix : string) (lim per : Z) (send : bool)
  (w : world) (r : RateLimit) (w' : world) :
  RateLimit_init prefix lim per send w = (Ok r, w') ->
  (w_clock w < reset r + expiration_window ->
   count_at (w_clock w) (w_counters w') (w_expiry w') (key r)
     = count_at (w_clock w) (w_counters w) (w_expiry w) (key r) + 1) /\
  (reset r + expiration_window <= w_clock w ->
   w_counters w' !! key r = None /\ w_expiry w' !! key r = None) /\
  (forall k', k' <> key r ->
     w_counters w' !! k' = w_counters w !! k' /\ w_expiry w' !! k' = w_expiry w !! k').
Proof.
  intros H. apply RateLimit_init_ok in H as (_ & _ & -> & ->). cbn [key reset].
  split; [|split].
  - intros Hn. cbn [w_counters w_expiry set_store].
    rewrite count_at_store_after by exact Hn. apply incr_value_count_at.
  - intros Hn. exact (store_after_expired _ _ _ _ _ _ Hn).
  - intros k' Hk. cbn [w_counters w_expiry set_store]. unfold store_after.
    destruct (_ + expiration_window <=? w_clock w); simpl;
      [rewrite !lookup_delete_ne by congruence|rewrite !lookup_insert_ne by congruence];
      auto.
Qed.

Lemma RateLimit_init_local_witness :
  exists r w', RateLimit_init "p/" 2 60 true (w_demo true) = (Ok r, w') /\
               count_at 1000 (w_counters w') (w_expiry w') (key r) = 1.
Proof.
  destruct (RateLimit_init "p/" 2 60 true (w_demo true)) as [[r|e] w'] eqn:E;
    [|vm_compute in E; discriminate].
  exists r, w'. split; [reflexivity|].
  assert (Hn : w_clock (w_demo true) < reset r + expiration_window).
  { vm_compute in E. injection E as <- _. vm_compute. reflexivity. }
  change (count_at 1000) with (count_at (w_clock (w_demo true))).
  rewrite (proj1 (RateLimit_init_local "p/" 2 60 true (w_demo true) r w' E) Hn).
  vm_compute in E. injection E as <- _. reflexivity.
Defined.

(** [n] sequential requests from one client to one view decorated with
    [@ratelimit(limit=L, per=per)], [per > 0], all within one window: the
    scope's Redis counter grows by [n] (rejected requests count too), and the
    view runs once for each request whose post-increment count [c + i] is
    below [L], i.e. [max(0, min(n, L - 1 - c))] times where [c] is the
    counter before. *)
Theorem window_admissions (L per : Z) (req : request) (resp0 : response)
  (n : nat) (w : world) :
  0 < per -> w_store_up w = true ->
  let k := counter_key (rate_limit_key (endpoint req) (remote_addr req)) (w_clock w) per in
  let '(rs, w') := run_requests n req (ratelimit_default L per (ret resp0)) w in
  count_at (w_clock w) (w_counters w') (w_expiry w') k
    = count_at (w_clock w) (w_counters w) (w_expiry w) k + Z.of_nat n /\
  Z.of_nat (w_f_calls w') =
    Z.of_nat (w_f_calls w) +
    Z.max 0 (Z.min (Z.of_nat n) (L - 1 - count_at (w_clock w) (w_counters w) (w_expiry w) k)) /\
  length rs = n.
Proof.
  intros Hper. revert w. induction n as [|n IH]; intros w Hup; cbv zeta.
  - simpl. lia.
  - cbn [run_requests]. rewrite handle_request_default_step by (auto; lia).
    cbv beta iota zeta.
    match goal with
    | |- context [run_requests n req ?view ?w1] =>
        specialize (IH w1 eq_refl);
        destruct (run_requests n req view w1) as [rs w'] eqn:E
    end.
    cbv zeta in IH.
    cbn [w_clock w_counters w_expiry w_f_calls] in IH |- *.
    set (k := counter_key (rate_limit_key (endpoint req) (remote_addr req)) (w_clock w) per)
      in *.
    rewrite count_at_store_after in IH
      by (pose proof (window_end_after (w_clock w) per Hper); unfold expiration_window; lia).
    pose proof (incr_value_count_at (w_clock w) (w_counters w) (w_expiry w) k) as Hv.
    destruct IH as (H1 & H2 & H3).
    split; [lia|]. split; [|simpl; lia].
    rewrite H2.
    destruct (L <=? incr_value (w_clock w) (w_counters w) (w_expiry w) k) eqn:HL.
    + apply Z.leb_le in HL. lia.
    + apply Z.leb_gt in HL. rewrite Nat2Z.inj_succ. lia.
Qed.

Lemma window_admissions_witness :
  0 < 60 /\ w_store_up (w_demo true) = true /\
  let '(rs, w') := run_requests 5 req_demo (ratelimit_default 3 60 view_ok) (w_demo true) in
  Z.of_nat (w_f_calls w') = 2.
Proof.
  split; [lia|]. split; [reflexivity|].
  pose proof (window_admissions 3 60 req_demo (mk_response (JStr "rows") 200 []) 5
                (w_demo true) ltac:(lia) eq_refl) as H.
  cbv zeta in H. unfold view_ok.
  destruct (run_requests 5 req_demo _ (w_demo true)) as [rs w'].
  destruct H as (_ & H & _). rewrite H. vm_compute. reflexivity.
Defined.

(** With a negative [per] the window end lies in the past, and when the
    EXPIREAT deadline [window_end + 10] is not after the clock, Redis deletes
    the counter within the same batch: every INCR replies 1, so with a limit
    of at least 2 every request is admitted and no counter remains.  Starting
    from a scope with no live count, [n] sequential requests at that clock
    all reach the view and are answered with its status. *)
Theorem expired_window_admits_all (L per : Z) (req : request) (resp0 : response)
  (n : nat) (w : world) :
  per <> 0 -> w_store_up w = true -> 2 <= L ->
  window_end (w_clock w) per + expiration_window <= w_clock w ->
  let k := counter_key (rate_limit_key (endpoint req) (remote_addr req)) (w_clock w) per in
  count_at (w_clock w) (w_counters w) (w_expiry w) k = 0 ->
  let '(rs, w') := run_requests n req (ratelimit_default L per (ret resp0)) w in
  Z.of_nat (w_f_calls w') = Z.of_nat (w_f_calls w) + Z.of_nat n /\
  Forall (fun r => status_of r = status resp0) rs /\
  length rs = n /\
  count_at (w_clock w) (w_counters w') (w_expiry w') k = 0.
Proof.
  intros Hper Hup HL Hexp. revert w Hup Hexp.
  induction n as [|n IH]; intros w Hup Hexp; cbv zeta; intros H0.
  - simpl. split; [lia|]. split; [constructor|]. split; [reflexivity|exact H0].
  - cbn [run_requests]. rewrite handle_request_default_step by assumption.
    cbv beta iota zeta.
    set (k := counter_key (rate_limit_key (endpoint req) (remote_addr req)) (w_clock w) per)
      in *.
    assert (Hv : incr_value (w_clock w) (w_counters w) (w_expiry w) k = 1).
    { rewrite incr_value_count_at, H0. reflexivity. }
    rewrite Hv.
    destruct (store_after_expired (w_clock w) k (window_end (w_clock w) per) 1
                (w_counters w) (w_expiry w) Hexp) as [Hc _].
    match goal with
    | |- context [run_requests n req ?view ?w1] =>
        specialize (IH w1 eq_refl Hexp);
        destruct (run_requests n req view w1) as [rs w'] eqn:E
    end.
    cbv zeta in IH. cbn [w_clock w_counters w_expiry w_f_calls] in IH |- *.
    assert (Hl : (L <=? 1) = false) by (apply Z.leb_gt; lia).
    rewrite Hl in IH |- *. cbv iota in IH |- *.
    destruct (IH (count_at_none _ _ _ _ Hc)) as (H1 & H2 & H3 & H4).
    split; [rewrite H1, Nat2Z.inj_succ; lia|].
    split; [constructor; [|exact H2]|].
    + unfold status_of, inject_x_rate_headers. cbn [send_x_headers].
      unfold add_header. reflexivity.
    + split; [simpl; lia|exact H4].
Qed.

Lemma expired_window_admits_all_witness :
  (-60 <> 0 /\ w_store_up (w_demo true) = true /\ 2 <= 3 /\
   window_end 1000 (-60) + expiration_window <= 1000) /\
  let '(rs, w') := run_requests 5 req_demo (ratelimit_default 3 (-60) view_ok) (w_demo true) in
  Z.of_nat (w_f_calls w') = 5 /\ map status_of rs = [200; 200; 200; 200; 200].
Proof.
  split; [split; [lia|]; split; [reflexivity|]; split; [lia|vm_compute; discriminate]|].
  pose proof (expired_window_admits_all 3 (-60) req_demo (mk_response (JStr "rows") 200 []) 5
                (w_demo true) ltac:(lia) eq_refl ltac:(lia)
                ltac:(vm_compute; discriminate) eq_refl) as H.
  cbv zeta in H. unfold view_ok.
  destruct (run_requests 5 req_demo _ (w_demo true)) as [rs w'] eqn:E.
  destruct H as (H1 & H2 & H3 & _). split; [rewrite H1; reflexivity|].
  destruct rs as [|r1 [|r2 [|r3 [|r4 [|r5 [|]]]]]]; try discriminate H3.
  inversion H2 as [|? ? S1 T1]; subst. inversion T1 as [|? ? S2 T2]; subst.
  inversion T2 as [|? ? S3 T3]; subst. inversion T3 as [|? ? S4 T4]; subst.
  inversion T4 as [|? ? S5 T5]; subst.
  simpl. rewrite S1, S2, S3, S4, S5. reflexivity.
Defined.

(** Every response of a view decorated with [@ratelimit(limit=L, per=per)],
    admitted or rejected, carries [X-RateLimit-Remaining] [= max(L - v, 0)]
    ([v] the post-increment count), [X-RateLimit-Limit = L] and
    [X-RateLimit-Reset = window_end], appended after the view's own headers;
    a rejected request gets the 429 body. *)
Theorem rate_limited_response_headers (L per : Z) (req : request) (resp0 : response)
  (w : world) :
  per <> 0 -> w_store_up w = true ->
  let k := counter_key (rate_limit_key (endpoint req) (remote_addr req)) (w_clock w) per in
  let v := incr_value (w_clock w) (w_counters w) (w_expiry w) k in
  fst (handle_request req (ratelimit_default L per (ret resp0)) w) =
  Ok (mk_response
        (if L <=? v then rejection_body else body resp0)
        (if L <=? v then 429 else status resp0)
        ((if L <=? v then [] else headers resp0) ++
         [("X-RateLimit-Remaining"%string, py_str (Z.max (L - v) 0));
          ("X-RateLimit-Limit"%string, py_str L);
          ("X-RateLimit-Reset"%string, py_str (window_end (w_clock w) per))])).
Proof.
  intros Hper Hup k v.
  rewrite handle_request_default_step by assumption. cbv zeta. fold k. fold v.
  unfold inject_x_rate_headers, remaining, add_header. cbn [send_x_headers limit current reset].
  replace (L - Z.min v L) with (Z.max (L - v) 0) by lia.
  destruct (L <=? v); simpl; [reflexivity|].
  rewrite <- !app_assoc. reflexivity.
Qed.

Lemma rate_limited_response_headers_witness :
  60 <> 0 /\ w_store_up (w_demo true) = true /\
  fst (handle_request req_demo (ratelimit_default 1 60 view_ok) (w_demo true)) =
  Ok (mk_response rejection_body 429
        [("X-RateLimit-Remaining"%string, "0"%string);
         ("X-RateLimit-Limit"%string, "1"%string);
         ("X-RateLimit-Reset"%string, "1020"%string)]).
Proof.
  split; [lia|]. split; [reflexivity|].
  pose proof (rate_limited_response_headers 1 60 req_demo (mk_response (JStr "rows") 200 [])
                (w_demo true) ltac:(lia) eq_refl) as H.
  cbv zeta in H. unfold view_ok. rewrite H. vm_compute. reflexivity.
Defined.

Lemma string_append_assoc (a b c : string) :
  String.append (String.append a b) c = String.append a (String.append b c).
Proof. induction a as [|x a IH]; [reflexivity|]. exact (f_equal (String x) IH). Qed.

Lemma slash_split (a b x y : string) :
  slash_free a = true -> slash_free b = true ->
  String.append a (String "/"%char x) = String.append b (String "/"%char y) ->
  a = b /\ x = y.
Proof.
  revert b. induction a as [|c a IH]; intros b Ha Hb H; destruct b as [|c' b]; simpl in *.
  - injection H as H. auto.
  - injection H as <- _. simpl in Hb. discriminate.
  - injection H as -> _. simpl in Ha. discriminate.
  - injection H as <- H.
    apply andb_prop in Ha as [_ Ha]. apply andb_prop in Hb as [_ Hb].
    destruct (IH b Ha Hb H) as [-> ->]. auto.
Qed.

(** When endpoint names and client addresses contain no ['/'] (as Flask
    endpoints and IP addresses do not), the counter key
    ['rate-limit/<endpoint>/<client>/<window_end>'] determines the endpoint,
    the client and the window end: distinct scopes never share a counter. *)
Theorem counter_key_injective (kf1 sf1 kf2 sf2 : string) (r1 r2 : Z) :
  slash_free kf1 = true -> slash_free sf1 = true ->
  slash_free kf2 = true -> slash_free sf2 = true ->
  String.append (rate_limit_key kf1 sf1) (py_str r1)
    = String.append (rate_limit_key kf2 sf2) (py_str r2) ->
  kf1 = kf2 /\ sf1 = sf2 /\ r1 = r2.
Proof.
  intros Hk1 Hs1 Hk2 Hs2 H. unfold rate_limit_key in H.
  rewrite !string_append_assoc in H. apply append_inj_r in H.
  apply slash_split in H as [-> H]; [|assumption|assumption].
  apply slash_split in H as [-> H]; [|assumption|assumption].
  apply py_str_inj in H. auto.
Qed.

Lemma counter_key_injective_witness :
  slash_free "events_hourly" = true /\ slash_free "1.2.3.4" = true /\
  slash_free "poi" = true /\ slash_free "1.2.3.4" = true /\
  String.append (rate_limit_key "events_hourly" "1.2.3.4") (py_str 1020)
    <> String.append (rate_limit_key "poi" "1.2.3.4") (py_str 1020).
Proof.
  repeat split; try reflexivity.
  intros H.
  destruct (counter_key_injective "events_hourly" "1.2.3.4" "poi" "1.2.3.4" 1020 1020
              eq_refl eq_refl eq_refl eq_refl H) as [Hne _].
  discriminate.
Defined.

(** ** The database helpers *)

Lemma py_getitem_Ok {A} (l : list A) (i : Z) :
  - Z.of_nat (length l) <= i < Z.of_nat (length l) ->
  exists x, py_getitem l i = Ok x /\
            nth_error l (Z.to_nat (if i <? 0 then i + Z.of_nat (length l) else i)) = Some x.
Proof.
  intros Hi. unfold py_getitem.
  set (j := if i <? 0 then i + Z.of_nat (length l) else i).
  assert (Hj : 0 <= j < Z.of_nat (length l)).
  { unfold j. destruct (Z.ltb_spec i 0); lia. }
  rewrite (proj2 (Z.leb_le _ _)) by lia. rewrite (proj2 (Z.ltb_lt _ _)) by lia. simpl.
  destruct (nth_error l (Z.to_nat j)) as [x|] eqn:E.
  - eauto.
  - apply nth_error_None in E. lia.
Qed.

Lemma py_getitem_Err {A} (l : list A) (i : Z) :
  ~ (- Z.of_nat (length l) <= i < Z.of_nat (length l)) ->
  py_getitem l i = Raise IndexError.
Proof.
  intros Hi. unfold py_getitem.
  set (j := if i <? 0 then i + Z.of_nat (length l) else i).
  destruct ((0 <=? j) && (j <? Z.of_nat (length l))) eqn:E; [|reflexivity].
  exfalso. apply andb_prop in E as [E1 E2].
  apply Z.leb_le in E1. apply Z.ltb_lt in E2. apply Hi.
  unfold j in *. destruct (Z.ltb_spec i 0); lia.
Qed.

Lemma build_features_split {C} (mk : list C -> result (pyval C)) (P : list C -> Prop)
  (Pdec : forall row, {P row} + {~ P row})
  (HP : forall row, P row -> exists o, mk row = Ok o)
  (HN : forall row, ~ P row -> mk row = Raise IndexError)
  (rows : list (list C)) :
  (build_features mk rows = Raise IndexError /\ Exists (fun row => ~ P row) rows) \/
  (exists fs, build_features mk rows = Ok fs /\
              Forall2 (fun row f => mk row = Ok f) rows fs /\ Forall P rows).
Proof.
  induction rows as [|row rows IH]; simpl.
  - right. exists []. repeat constructor.
  - destruct (Pdec row) as [Hp|Hn].
    + destruct (HP row Hp) as [o Ho]. rewrite Ho. simpl.
      destruct IH as [[-> Hex]|(fs & -> & H2 & H3)].
      * left. split; [reflexivity|]. now apply Exists_cons_tl.
      * right. exists (o :: fs). split; [reflexivity|]. split; constructor; auto.
    + rewrite (HN row Hn). left. split; [reflexivity|]. now apply Exists_cons_hd.
Qed.

Lemma py_getitem_from_end {A} (l : list A) (k : nat) :
  (1 <= k <= length l)%nat ->
  exists x, py_getitem l (- Z.of_nat k) = Ok x /\ nth_error l (length l - k) = Some x.
Proof.
  intros Hk. destruct (py_getitem_Ok l (- Z.of_nat k)) as (x & H & N); [lia|].
  exists x. split; [exact H|].
  rewrite (proj2 (Z.ltb_lt _ _)) in N by lia.
  replace (Z.to_nat (- Z.of_nat k + Z.of_nat (length l))) with (length l - k)%nat in N by lia.
  exact N.
Qed.

Lemma py_getitem_from_start {A} (l : list A) (k : nat) :
  (k < length l)%nat ->
  exists x, py_getitem l (Z.of_nat k) = Ok x /\ nth_error l k = Some x.
Proof.
  intros Hk. destruct (py_getitem_Ok l (Z.of_nat k)) as (x & H & N); [lia|].
  exists x. split; [exact H|].
  rewrite (proj2 (Z.ltb_ge _ _)) in N by lia. rewrite Nat2Z.id in N. exact N.
Qed.

Ltac cell_from_end l k z x :=
  let H := fresh "Hc" in let N := fresh "Nc" in
  destruct (py_getitem_from_end l k) as (x & H & N); [lia|];
  change (- Z.of_nat k) with z in H; rewrite H.

Ltac cell_from_start l k z x :=
  let H := fresh "Hc" in let N := fresh "Nc" in
  destruct (py_getitem_from_start l k) as (x & H & N); [lia|];
  change (Z.of_nat k) with z in H; rewrite H.

Lemma geostats_feature_ok {C} (row : list C) :
  (5 <= length row)%nat -> exists o, geostats_feature row = Ok o.
Proof.
  intros H5. unfold geostats_feature.
  cell_from_end row 2%nat (-2) lon. cell_from_end row 1%nat (-1) lat.
  cell_from_start row 0%nat 0 c0. cell_from_start row 1%nat 1 c1.
  cell_from_start row 2%nat 2 c2. cell_from_start row 3%nat 3 c3.
  cell_from_start row 4%nat 4 c4.
  cbn [rbind_r]. eexists; reflexivity.
Qed.

Lemma geostats_feature_err {C} (row : list C) :
  (length row < 5)%nat -> geostats_feature row = Raise IndexError.
Proof.
  intros H.
  do 5 (destruct row as [|? row]; [reflexivity|]).
  simpl in H. lia.
Qed.

Lemma geoevents_feature_ok {C} (row : list C) :
  (3 <= length row)%nat -> exists o, geoevents_feature row = Ok o.
Proof.
  intros H3. unfold geoevents_feature.
  cell_from_end row 2%nat (-2) lon. cell_from_end row 1%nat (-1) lat.
  cell_from_start row 0%nat 0 c0. cell_from_start row 1%nat 1 c1.
  cell_from_start row 2%nat 2 c2.
  cbn [rbind_r]. eexists; reflexivity.
Qed.

Lemma geoevents_feature_err {C} (row : list C) :
  (length row < 3)%nat -> geoevents_feature row = Raise IndexError.
Proof.
  intros H.
  do 3 (destruct row as [|? row]; [reflexivity|]).
  simpl in H. lia.
Qed.

(** [geostats_helper] either fails with [IndexError], exactly when some row
    has fewer than 5 cells, or returns a FeatureCollection holding one
    feature per row, in the order of the rows. *)
Theorem geostats_helper_spec {C} (rows : list (list C)) :
  (geostats_helper rows = Raise IndexError /\
   Exists (fun row => length row < 5)%nat rows) \/
  (exists fs, geostats_helper rows = Ok (feature_collection fs) /\
              length fs = length rows /\
              Forall2 (fun row f => geostats_feature row = Ok f) rows fs /\
              Forall (fun row => 5 <= length row)%nat rows).
Proof.
  destruct (build_features_split geostats_feature (fun row => 5 <= length row)%nat
              (fun row => le_dec 5 (length row)) (@geostats_feature_ok C)
              (fun row (Hn : ~ (5 <= length row)%nat) => geostats_feature_err row ltac:(lia)) rows)
    as [[E Hex]|(fs & E & H2 & H3)].
  - left. unfold geostats_helper. rewrite E. split; [reflexivity|].
    eapply Exists_impl; [exact Hex|]. simpl. intros row Hn. lia.
  - right. exists fs. unfold geostats_helper. rewrite E.
    split; [reflexivity|]. split; [|auto].
    symmetry. exact (Forall2_length _ _ _ H2).
Qed.

(** [geoevents_helper] either fails with [IndexError], exactly when some
    row has fewer than 3 cells, or returns a FeatureCollection holding one
    feature per row, in the order of the rows. *)
Theorem geoevents_helper_spec {C} (rows : list (list C)) :
  (geoevents_helper rows = Raise IndexError /\
   Exists (fun row => length row < 3)%nat rows) \/
  (exists fs, geoevents_helper rows = Ok (feature_collection fs) /\
              length fs = length rows /\
              Forall2 (fun row f => geoevents_feature row = Ok f) rows fs /\
              Forall (fun row => 3 <= length row)%nat rows).
Proof.
  destruct (build_features_split geoevents_feature (fun row => 3 <= length row)%nat
              (fun row => le_dec 3 (length row)) (@geoevents_feature_ok C)
              (fun row (Hn : ~ (3 <= length row)%nat) => geoevents_feature_err row ltac:(lia)) rows)
    as [[E Hex]|(fs & E & H2 & H3)].
  - left. unfold geoevents_helper. rewrite E. split; [reflexivity|].
    eapply Exists_impl; [exact Hex|]. simpl. intros row Hn. lia.
  - right. exists fs. unfold geoevents_helper. rewrite E.
    split; [reflexivity|]. split; [|auto].
    symmetry. exact (Forall2_length _ _ _ H2).
Qed.

(** ** [dict(row.items())] in [query_helper] *)





Lemma dict_set_fresh {V} (d : list (string * V)) (k : string) (v : V) :
  ~ In k (map fst d) -> dict_set d k v = d ++ [(k, v)].
Proof.
  induction d as [|[k0 v0] d IH]; simpl; intros Hn; [reflexivity|].
  destruct (String.eqb_spec k0 k) as [->|Hne]; [tauto|].
  rewrite IH by tauto. reflexivity.
Qed.



Lemma fold_dict_distinct {V} (items d : list (string * V)) :
  List.NoDup (map fst (d ++ items)) ->
  fold_left (fun d kv => dict_set d (fst kv) (snd kv)) items d = d ++ items.
Proof.
  revert d. induction items as [|x items IH]; intros d Hnd; simpl.
  - rewrite app_nil_r. reflexivity.
  - rewrite map_app in Hnd. simpl in Hnd.
    rewrite dict_set_fresh.
    + destruct x as [k v]. rewrite IH.
      * rewrite <- app_assoc. reflexivity.
      * rewrite <- app_assoc, map_app. exact Hnd.
    + intros Hin. apply (NoDup_remove_2 _ _ _ Hnd). apply in_or_app. left. exact Hin.
Qed.


(** When the column names of every row are distinct, [query_helper] returns
    one dict per row, in row order, each holding that row's columns and
    values in column order. *)
Theorem query_helper_distinct_columns {C} (rows : list (list (string * C))) :
  Forall (fun row => List.NoDup (map fst row)) rows ->
  query_helper rows =
  PList (map (fun row => PDict (map (fun kv => (fst kv, PCell (snd kv))) row)) rows).
Proof.
  intros H. unfold query_helper. f_equal.
  apply map_ext_Forall. eapply Forall_impl; [exact H|].
  intros row Hnd. simpl. unfold dict_of_items.
  rewrite fold_dict_distinct by exact Hnd. reflexivity.
Qed.

Lemma query_helper_distinct_columns_witness :
  Forall (fun row => List.NoDup (map fst row))
    [[("date", 1); ("hour", 2)]; [("date", 3); ("hour", 4)]]%string /\
  query_helper [[("date", 1); ("hour", 2)]; [("date", 3); ("hour", 4)]]%string =
  PList [PDict [("date", PCell 1); ("hour", PCell 2)];
         PDict [("date", PCell 3); ("hour", PCell 4)]]%string.
Proof.
  assert (Hnd : Forall (fun row => List.NoDup (map fst row))
                  [[("date", 1); ("hour", 2)]; [("date", 3); ("hour", 4)]]%string).
  { repeat constructor; simpl; intuition discriminate. }
  split; [exact Hnd|].
  rewrite (query_helper_distinct_columns _ Hnd). reflexivity.
Defined.
